(** * Speech-recognition page: transcript aggregation and session control

    A shallow embedding of the script block of [src/routes/+page.svelte]:
    the module-level variables become one record, each handler becomes a
    function on that record, and the browser (button clicks, callbacks of
    the recognition object) becomes a step relation that delivers inputs
    to those handlers. *)

From Stdlib Require Import String List Arith Bool Lia Relations.
Import ListNotations.
Open Scope string_scope.

(** ** Values delivered by the recognition capability *)

(** [event.results[i][k]]: one recognition alternative. *)
Record SpeechRecognitionAlternative := mkAlternative {
  transcript : string
}.

(** [event.results[i]]: the handler reads alternative 0 and [isFinal].
    A result always carries at least one alternative (the page asks for
    [maxAlternatives = 1]), so alternative 0 is a field and the remaining
    ones are a list. *)
Record SpeechRecognitionResult := mkResult {
  item0 : SpeechRecognitionAlternative;
  items : list SpeechRecognitionAlternative;
  isFinal : bool
}.

(** The payload of [onresult]: [resultIndex] is the lowest index that
    changed, [results] the list of results of the session so far. *)
Record SpeechRecognitionEvent := mkEvent {
  resultIndex : nat;
  results : list SpeechRecognitionResult
}.

(** The payload of [onerror]; [error] is the error code string. *)
Record SpeechRecognitionErrorEvent := mkErrorEvent {
  error : string
}.

(** ** The recognition object *)

(** The four properties set by [createSpeechRecognition], and for each
    callback slot whether [onMount] has assigned its handler. *)
Record SpeechRecognition := mkRecognition {
  continuous : bool;
  interimResults : bool;
  lang : string;
  maxAlternatives : nat;
  onresult : bool;
  onerror : bool;
  onstart : bool;
  onend : bool
}.

(** Method calls made on the recognition object. *)
Inductive Request := ReqStart | ReqStop.

(** [window.SpeechRecognition] and [window.webkitSpeechRecognition]:
    each is either absent or a constructor. *)
Inductive Constructor := StandardCtor | WebkitCtor.

Record Window := mkWindow {
  window_SpeechRecognition : option Constructor;
  window_webkitSpeechRecognition : option Constructor
}.

(** ** The component's variables *)

(** The six [let] variables of the script, followed by the two effects
    that leave the component: lines written with [console.error] and the
    calls made on the recognition object, both oldest first. *)
Record Component := mkComponent {
  recognition : option SpeechRecognition;
  interimTranscript : string;
  finalTranscript : string;
  isRecording : bool;
  isButtonDisabled : bool;
  errorMessage : string;
  console : list string;
  calls : list Request
}.

Definition set_recognition (r : option SpeechRecognition) (c : Component) :=
  mkComponent r (interimTranscript c) (finalTranscript c) (isRecording c)
    (isButtonDisabled c) (errorMessage c) (console c) (calls c).

Definition set_interimTranscript (s : string) (c : Component) :=
  mkComponent (recognition c) s (finalTranscript c) (isRecording c)
    (isButtonDisabled c) (errorMessage c) (console c) (calls c).

Definition set_finalTranscript (s : string) (c : Component) :=
  mkComponent (recognition c) (interimTranscript c) s (isRecording c)
    (isButtonDisabled c) (errorMessage c) (console c) (calls c).

Definition set_isRecording (b : bool) (c : Component) :=
  mkComponent (recognition c) (interimTranscript c) (finalTranscript c) b
    (isButtonDisabled c) (errorMessage c) (console c) (calls c).

Definition set_isButtonDisabled (b : bool) (c : Component) :=
  mkComponent (recognition c) (interimTranscript c) (finalTranscript c)
    (isRecording c) b (errorMessage c) (console c) (calls c).

Definition set_errorMessage (s : string) (c : Component) :=
  mkComponent (recognition c) (interimTranscript c) (finalTranscript c)
    (isRecording c) (isButtonDisabled c) s (console c) (calls c).

Definition console_error (line : string) (c : Component) :=
  mkComponent (recognition c) (interimTranscript c) (finalTranscript c)
    (isRecording c) (isButtonDisabled c) (errorMessage c)
    (console c ++ [line]) (calls c).

Definition log_call (q : Request) (c : Component) :=
  mkComponent (recognition c) (interimTranscript c) (finalTranscript c)
    (isRecording c) (isButtonDisabled c) (errorMessage c) (console c)
    (calls c ++ [q]).

(** The variables as the script initialises them. *)
Definition initial : Component :=
  mkComponent None "" "" false false "" [] [].

(** ** [createSpeechRecognition] and [onMount] *)

(** [new SpeechRecognition()]: a fresh object with the defaults of the
    Web Speech API and no callback assigned. *)
Definition new_recognition (_ : Constructor) : SpeechRecognition :=
  mkRecognition false false "" 1 false false false false.

(** [window.SpeechRecognition || window.webkitSpeechRecognition]. *)
Definition pick_constructor (w : Window) : option Constructor :=
  match window_SpeechRecognition w with
  | Some k => Some k
  | None => window_webkitSpeechRecognition w
  end.

Definition createSpeechRecognition (w : Window) : option SpeechRecognition :=
  match pick_constructor w with
  | None => None
  | Some k =>
      let r := new_recognition k in
      Some (mkRecognition true true "ja-JP" 1
              (onresult r) (onerror r) (onstart r) (onend r))
  end.

Definition unsupported_line : string :=
  "SpeechRecognition API is not supported in this browser.".

(** [onMount]'s callback: without a recognition object it logs and
    returns; otherwise it assigns the four handlers. *)
Definition onMount (w : Window) (c : Component) : Component :=
  let c1 := set_recognition (createSpeechRecognition w) c in
  match recognition c1 with
  | None => console_error unsupported_line c1
  | Some r =>
      set_recognition
        (Some (mkRecognition (continuous r) (interimResults r) (lang r)
                 (maxAlternatives r) true true true true)) c1
  end.

(** ** [handleRecognitionResult] *)

(** The [for] loop of the handler. [n] is the number of iterations left,
    [i] the loop variable; [final] is [finalTranscript] and [interim] the
    local of that name. The handler starts it with
    [n = results.length - resultIndex], so that the loop runs exactly
    while [i < results.length]; the [None] branch is never taken then. *)
Fixpoint result_loop (rs : list SpeechRecognitionResult) (n i : nat)
    (final interim : string) : string * string :=
  match n with
  | 0 => (final, interim)
  | S n' =>
      match nth_error rs i with
      | None => (final, interim)
      | Some r =>
          let tr := transcript (item0 r) in
          if isFinal r
          then result_loop rs n' (S i) (final ++ tr) interim
          else result_loop rs n' (S i) final (interim ++ tr)
      end
  end.

Definition handleRecognitionResult (event : SpeechRecognitionEvent)
    (c : Component) : Component :=
  let rs := results event in
  let out := result_loop rs (length rs - resultIndex event)
               (resultIndex event) (finalTranscript c) "" in
  set_interimTranscript (snd out) (set_finalTranscript (fst out) c).

(** ** [handleRecognitionError] *)

Definition no_speech_message : string :=
  "音声が検出されませんでした。もう一度お試しください。".

Definition other_error_prefix : string := "エラーが発生しました: ".

Definition handleRecognitionError (event : SpeechRecognitionErrorEvent)
    (c : Component) : Component :=
  let c1 := console_error ("Error: " ++ error event) c in
  let c2 :=
    if String.eqb (error event) "no-speech"
    then set_errorMessage no_speech_message c1
    else set_errorMessage (other_error_prefix ++ error event) c1 in
  set_isButtonDisabled false (set_isRecording false c2).

(** ** The [onstart] and [onend] callbacks assigned by [onMount] *)

Definition onstart_callback (c : Component) : Component :=
  set_isButtonDisabled false (set_isRecording true c).

Definition onend_callback (c : Component) : Component :=
  set_isButtonDisabled false (set_isRecording false c).

(** ** Starting and stopping *)

(** [recognition?.start()] and [recognition?.stop()]: a call is made only
    when [recognition] is not null. *)
Definition recognition_start (c : Component) : Component :=
  match recognition c with
  | Some _ => log_call ReqStart c
  | None => c
  end.

Definition recognition_stop (c : Component) : Component :=
  match recognition c with
  | Some _ => log_call ReqStop c
  | None => c
  end.

(** The statements that occur in the bodies of [startRecognition] and
    [stopRecognition]: assignments to four of the variables and the two
    calls on the recognition object. *)
Inductive Statement :=
| AssignInterimTranscript (s : string)
| AssignFinalTranscript (s : string)
| AssignErrorMessage (s : string)
| AssignIsButtonDisabled (b : bool)
| CallRecognitionStart
| CallRecognitionStop.

Definition exec (s : Statement) (c : Component) : Component :=
  match s with
  | AssignInterimTranscript v => set_interimTranscript v c
  | AssignFinalTranscript v => set_finalTranscript v c
  | AssignErrorMessage v => set_errorMessage v c
  | AssignIsButtonDisabled v => set_isButtonDisabled v c
  | CallRecognitionStart => recognition_start c
  | CallRecognitionStop => recognition_stop c
  end.

(** A body runs its statements from first to last. *)
Fixpoint exec_body (body : list Statement) (c : Component) : Component :=
  match body with
  | [] => c
  | s :: rest => exec_body rest (exec s c)
  end.

(** Each statement of a body with the state in which it runs. *)
Fixpoint schedule (body : list Statement) (c : Component)
    : list (Statement * Component) :=
  match body with
  | [] => []
  | s :: rest => (s, c) :: schedule rest (exec s c)
  end.

(** The five statements of [startRecognition], in source order. *)
Definition startRecognition_body : list Statement :=
  [ AssignInterimTranscript "";
    AssignFinalTranscript "";
    AssignErrorMessage "";
    AssignIsButtonDisabled true;
    CallRecognitionStart ].

(** The two statements of [stopRecognition], in source order. *)
Definition stopRecognition_body : list Statement :=
  [ AssignIsButtonDisabled true;
    CallRecognitionStop ].

(** The functions run their bodies; the body is run here once and for
    all, which leaves the statements applied one after the other to [c]. *)
Definition startRecognition (c : Component) : Component :=
  Eval cbv [exec_body startRecognition_body exec] in
    exec_body startRecognition_body c.

Definition stopRecognition (c : Component) : Component :=
  Eval cbv [exec_body stopRecognition_body exec] in
    exec_body stopRecognition_body c.

Definition handleButtonClick (c : Component) : Component :=
  if isRecording c then stopRecognition c else startRecognition c.

(** ** The browser as the environment of the component *)

(** What the browser can deliver to the script after mounting: a click on
    the button, or one of the four callbacks of the recognition object. *)
Inductive Input :=
| Click
| Started
| ResultBatch (event : SpeechRecognitionEvent)
| Failed (event : SpeechRecognitionErrorEvent)
| Ended.

(** A callback slot can fire only on an existing recognition object to
    which [onMount] assigned the handler. *)
Definition slot_assigned (slot : SpeechRecognition -> bool) (c : Component)
    : bool :=
  match recognition c with
  | Some r => slot r
  | None => false
  end.

(** Delivery of one input; [None] when the browser cannot deliver it: the
    button carries [disabled={isButtonDisabled}], and a callback needs its
    slot. *)
Definition deliver (i : Input) (c : Component) : option Component :=
  match i with
  | Click =>
      if isButtonDisabled c then None else Some (handleButtonClick c)
  | Started =>
      if slot_assigned onstart c then Some (onstart_callback c) else None
  | ResultBatch event =>
      if slot_assigned onresult c
      then Some (handleRecognitionResult event c) else None
  | Failed event =>
      if slot_assigned onerror c
      then Some (handleRecognitionError event c) else None
  | Ended =>
      if slot_assigned onend c then Some (onend_callback c) else None
  end.

Definition step (c c' : Component) : Prop :=
  exists i, deliver i c = Some c'.

Definition reachable : Component -> Component -> Prop :=
  clos_refl_trans_1n Component step.

(** Runs a list of inputs, stopping at the first one that cannot be
    delivered. *)
Fixpoint run (inputs : list Input) (c : Component) : option Component :=
  match inputs with
  | [] => Some c
  | i :: rest =>
      match deliver i c with
      | Some c' => run rest c'
      | None => None
      end
  end.

(** A sequence of result events handled one after the other. *)
Definition process (events : list SpeechRecognitionEvent) (c : Component)
    : Component :=
  fold_left (fun acc event => handleRecognitionResult event acc) events c.

(** ** Vocabulary of the transcript properties *)

Definition join (texts : list string) : string :=
  fold_right append "" texts.

Definition text (r : SpeechRecognitionResult) : string :=
  transcript (item0 r).

(** The chunks of one delivery, each with its index: the results from
    [resultIndex] to the end of [results]. *)
Definition batch (event : SpeechRecognitionEvent)
    : list (nat * SpeechRecognitionResult) :=
  let chunks := skipn (resultIndex event) (results event) in
  combine (seq (resultIndex event) (length chunks)) chunks.

Definition is_final (chunk : nat * SpeechRecognitionResult) : bool :=
  isFinal (snd chunk).

Definition is_interim (chunk : nat * SpeechRecognitionResult) : bool :=
  negb (isFinal (snd chunk)).

Definition texts (chunks : list (nat * SpeechRecognitionResult))
    : list string :=
  map (fun chunk => text (snd chunk)) chunks.

(** Indices and texts of the final chunks of a sequence of deliveries, in
    delivery order. *)
Definition final_chunks (events : list SpeechRecognitionEvent)
    : list (nat * SpeechRecognitionResult) :=
  flat_map (fun event => filter is_final (batch event)) events.

(** Strictly increasing indices: each one below its successor. *)
Fixpoint increasing (indices : list nat) : bool :=
  match indices with
  | [] => true
  | i :: later =>
      match later with
      | [] => true
      | j :: _ => Nat.ltb i j && increasing later
      end
  end.

(** Chunks put in ascending index order (stable insertion sort). *)
Fixpoint insert_by_index (chunk : nat * SpeechRecognitionResult)
    (sorted : list (nat * SpeechRecognitionResult))
    : list (nat * SpeechRecognitionResult) :=
  match sorted with
  | [] => [chunk]
  | other :: rest =>
      if Nat.ltb (fst chunk) (fst other)
      then chunk :: sorted
      else other :: insert_by_index chunk rest
  end.

Definition in_index_order (chunks : list (nat * SpeechRecognitionResult))
    : list (nat * SpeechRecognitionResult) :=
  fold_right insert_by_index [] chunks.

(** [b] extends [a]: [a] followed by some suffix. *)
Definition extends (b a : string) : Prop :=
  exists suffix, b = a ++ suffix.

(** The snapshot's [lastError] is set when [errorMessage] is non-empty;
    the page shows the error block under [{#if errorMessage}]. *)
Definition lastError_set (c : Component) : Prop :=
  errorMessage c <> "".

(** ** The aggregator as section 4.2 of the specification words it

    This second aggregator follows the specification, not the script: it
    remembers which indices it finalized and skips a chunk whose index is
    among them. It is compared with [handleRecognitionResult] below. *)
Module SpecAggregator.

Record Aggregator := mkAggregator {
  finalText : string;
  interimText : string;
  finalized : list nat
}.

Definition reset : Aggregator := mkAggregator "" "" [].

Definition seen (index : nat) (a : Aggregator) : bool :=
  existsb (Nat.eqb index) (finalized a).

(** One chunk; [interimText] holds the scratch buffer of the batch. *)
Definition onChunk (a : Aggregator) (chunk : nat * SpeechRecognitionResult)
    : Aggregator :=
  if seen (fst chunk) a then a
  else if is_final chunk
  then mkAggregator (finalText a ++ text (snd chunk)) (interimText a)
         (fst chunk :: finalized a)
  else mkAggregator (finalText a) (interimText a ++ text (snd chunk))
         (finalized a).

Definition onResultBatch (a : Aggregator) (event : SpeechRecognitionEvent)
    : Aggregator :=
  fold_left onChunk (batch event)
    (mkAggregator (finalText a) "" (finalized a)).

Definition onResultBatches (events : list SpeechRecognitionEvent)
    (a : Aggregator) : Aggregator :=
  fold_left onResultBatch events a.

End SpecAggregator.

(** The reading of "skips every chunk at an already-finalized index":
    over a sequence of deliveries the script's [finalTranscript] is the
    [finalText] of the skipping aggregator. *)
Definition skips_finalized (events : list SpeechRecognitionEvent) : Prop :=
  finalTranscript (process events initial)
  = SpecAggregator.finalText
      (SpecAggregator.onResultBatches events SpecAggregator.reset).

(** Every delivery starts above every index finalized before it;
    [done] holds the indices finalized so far. *)
Fixpoint fresh_from (done : list nat)
    (events : list SpeechRecognitionEvent) : bool :=
  match events with
  | [] => true
  | event :: rest =>
      forallb (fun index => Nat.ltb index (resultIndex event)) done
      && fresh_from
           (map fst (filter is_final (batch event)) ++ done) rest
  end.

Definition fresh (events : list SpeechRecognitionEvent) : bool :=
  fresh_from [] events.

(** ** Calls and the page without the API *)

(** The calls a [recognition?.m()] adds: one when the object exists. *)
Definition requested (q : Request) (c : Component) : list Request :=
  match recognition c with
  | Some _ => [q]
  | None => []
  end.

(** What holds of the page for ever when the browser has no recognition
    API: nothing recorded, nothing transcribed, no error message, no call
    made, one console line. *)
Definition unsupported_page (c : Component) : Prop :=
  recognition c = None
  /\ isRecording c = false
  /\ finalTranscript c = ""
  /\ interimTranscript c = ""
  /\ errorMessage c = ""
  /\ calls c = []
  /\ console c = [unsupported_line].

(** ** The markup that reads the variables *)

(** [{#if finalTranscript === '' && interimTranscript === ''}]: the
    placeholder line of the transcript area. *)
Definition placeholder_shown (c : Component) : bool :=
  String.eqb (finalTranscript c) "" && String.eqb (interimTranscript c) "".

(** [{#if errorMessage}]: the error block; a string is truthy when it is
    not empty. *)
Definition error_shown (c : Component) : bool :=
  negb (String.eqb (errorMessage c) "").

(** ** Vocabulary of the session properties *)

Definition is_click (i : Input) : bool :=
  match i with
  | Click => true
  | _ => false
  end.

Definition is_failed (i : Input) : bool :=
  match i with
  | Failed _ => true
  | _ => false
  end.

Definition is_result (i : Input) : bool :=
  match i with
  | ResultBatch _ => true
  | _ => false
  end.

(** A click that [handleButtonClick] sends to [startRecognition]. *)
Definition is_start_click (i : Input) (c : Component) : bool :=
  match i with
  | Click => negb (isRecording c)
  | _ => false
  end.

(** The four callback slots of the recognition object are assigned. *)
Definition handlers_assigned (c : Component) : bool :=
  slot_assigned onresult c && slot_assigned onerror c
  && slot_assigned onstart c && slot_assigned onend c.

(** No final chunk comes after a non-final one. *)
Fixpoint finals_first (chunks : list (nat * SpeechRecognitionResult))
    : bool :=
  match chunks with
  | [] => true
  | first :: rest =>
      if is_final first then finals_first rest
      else forallb is_interim rest
  end.

(** ** Concrete inputs used in the examples below *)

Definition chunk (final : bool) (s : string) : SpeechRecognitionResult :=
  mkResult (mkAlternative s) [] final.

Definition supported_window : Window := mkWindow None (Some WebkitCtor).
Definition unsupported_window : Window := mkWindow None None.

Definition mounted : Component := onMount supported_window initial.
Definition mounted_unsupported : Component :=
  onMount unsupported_window initial.

(** A session in progress with ["ab"] finalized and ["こん"] pending. *)
Definition recording : Component :=
  set_interimTranscript "こん"
    (set_finalTranscript "ab" (set_isRecording true mounted)).

Definition kon_interim : SpeechRecognitionEvent :=
  mkEvent 0 [chunk false "こん"].
Definition konnichiwa_final : SpeechRecognitionEvent :=
  mkEvent 0 [chunk true "こんにちは"].
Definition second_utterance : SpeechRecognitionEvent :=
  mkEvent 1 [chunk true "こんにちは"; chunk true "世界"; chunk false "です"].
Definition all_final : SpeechRecognitionEvent :=
  mkEvent 1 [chunk false "x"; chunk true "y"; chunk true "z"].

Definition past_the_end : SpeechRecognitionEvent :=
  mkEvent 2 [chunk true "こんにちは"; chunk false "世界"].

(** * Properties *)

(** ** Strings *)

Lemma append_nil_r (s : string) : s ++ "" = s.
Proof. induction s as [|a s IH]; simpl; [reflexivity | now rewrite IH]. Qed.

Lemma append_assoc (s t u : string) : (s ++ t) ++ u = s ++ (t ++ u).
Proof. induction s as [|a s IH]; simpl; [reflexivity | now rewrite IH]. Qed.

Lemma length_append (s t : string) :
  String.length (s ++ t) = String.length s + String.length t.
Proof. induction s as [|a s IH]; simpl; [reflexivity | now rewrite IH]. Qed.

Lemma join_app (l1 l2 : list string) :
  join (l1 ++ l2)%list = join l1 ++ join l2.
Proof.
  induction l1 as [|s l1 IH]; simpl; [reflexivity|].
  now rewrite IH, append_assoc.
Qed.

Lemma extends_length (b a : string) :
  extends b a -> String.length a <= String.length b.
Proof. intros [suffix ->]. rewrite length_append. lia. Qed.

(** ** The loop of [handleRecognitionResult] *)

Lemma skipn_nth_error {A} (l : list A) (i : nat) (x : A) :
  nth_error l i = Some x -> skipn i l = x :: skipn (S i) l.
Proof.
  revert i; induction l as [|y l IH]; intros [|i] H; simpl in *;
    try discriminate.
  - now inversion H.
  - now apply IH.
Qed.

(** The loop visits the results from [i] on: it appends the final texts
    to [final] and the others to [interim], both in list order. *)
Lemma result_loop_skipn (rs : list SpeechRecognitionResult) :
  forall n i final interim,
    n = List.length rs - i ->
    result_loop rs n i final interim
    = (final ++ join (map text (filter isFinal (skipn i rs))),
       interim
       ++ join (map text (filter (fun r => negb (isFinal r)) (skipn i rs)))).
Proof.
  induction n as [|n IH]; intros i final interim Hn; simpl.
  - rewrite skipn_all2 by lia. simpl. now rewrite !append_nil_r.
  - destruct (nth_error rs i) as [r|] eqn:Hr.
    + rewrite (skipn_nth_error _ _ _ Hr). simpl.
      destruct (isFinal r); simpl; rewrite IH by lia;
        unfold text; now rewrite ?append_assoc.
    + apply nth_error_None in Hr. lia.
Qed.

Lemma texts_filter_combine (p : SpeechRecognitionResult -> bool)
    (l : list SpeechRecognitionResult) :
  forall k,
    texts (filter (fun c => p (snd c)) (combine (seq k (List.length l)) l))
    = map text (filter p l).
Proof.
  induction l as [|r l IH]; intros k; simpl; [reflexivity|].
  destruct (p r); simpl; now rewrite IH.
Qed.

Lemma final_texts_batch (event : SpeechRecognitionEvent) :
  texts (filter is_final (batch event))
  = map text (filter isFinal (skipn (resultIndex event) (results event))).
Proof. unfold batch, is_final. apply (texts_filter_combine isFinal). Qed.

Lemma interim_texts_batch (event : SpeechRecognitionEvent) :
  texts (filter is_interim (batch event))
  = map text (filter (fun r => negb (isFinal r))
                (skipn (resultIndex event) (results event))).
Proof.
  unfold batch, is_interim.
  apply (texts_filter_combine (fun r => negb (isFinal r))).
Qed.

(** The two transcripts after one event. *)
Lemma finalTranscript_handle (event : SpeechRecognitionEvent)
    (c : Component) :
  finalTranscript (handleRecognitionResult event c)
  = finalTranscript c ++ join (texts (filter is_final (batch event))).
Proof.
  unfold handleRecognitionResult. simpl.
  rewrite result_loop_skipn by reflexivity. simpl.
  now rewrite final_texts_batch.
Qed.

Lemma interimTranscript_handle (event : SpeechRecognitionEvent)
    (c : Component) :
  interimTranscript (handleRecognitionResult event c)
  = join (texts (filter is_interim (batch event))).
Proof.
  unfold handleRecognitionResult. simpl.
  rewrite result_loop_skipn by reflexivity. simpl.
  now rewrite interim_texts_batch.
Qed.

(** The indices of a batch start at [resultIndex] and ascend by one. *)
Lemma batch_indices (event : SpeechRecognitionEvent) :
  map fst (batch event)
  = seq (resultIndex event)
      (List.length (results event) - resultIndex event).
Proof.
  unfold batch.
  rewrite <- (length_skipn (resultIndex event) (results event)).
  generalize (skipn (resultIndex event) (results event)) as l.
  generalize (resultIndex event) as k.
  intros k l; revert k; induction l as [|r l IH]; intros k; simpl;
    [reflexivity | now rewrite IH].
Qed.

(** ** Sequences of result events *)

Lemma texts_app (l1 l2 : list (nat * SpeechRecognitionResult)) :
  texts (l1 ++ l2) = (texts l1 ++ texts l2)%list.
Proof. apply map_app. Qed.

Lemma finalTranscript_process (events : list SpeechRecognitionEvent) :
  forall c,
    finalTranscript (process events c)
    = finalTranscript c ++ join (texts (final_chunks events)).
Proof.
  induction events as [|event events IH]; intros c; simpl.
  - now rewrite append_nil_r.
  - unfold process in *. simpl. rewrite IH, finalTranscript_handle.
    now rewrite texts_app, join_app, append_assoc.
Qed.

Lemma process_snoc (events : list SpeechRecognitionEvent)
    (event : SpeechRecognitionEvent) (c : Component) :
  process (events ++ [event]) c
  = handleRecognitionResult event (process events c).
Proof. unfold process. now rewrite fold_left_app. Qed.

(** Chunks whose indices already increase are in index order. *)
Lemma in_index_order_increasing
    (chunks : list (nat * SpeechRecognitionResult)) :
  increasing (map fst chunks) = true -> in_index_order chunks = chunks.
Proof.
  induction chunks as [|x chunks IH]; intros H; [reflexivity|].
  destruct chunks as [|y chunks]; [reflexivity|].
  change (increasing (fst x :: fst y :: map fst chunks) = true) in H.
  cbn [increasing] in H. apply andb_true_iff in H as [Hxy Hrest].
  change (insert_by_index x (in_index_order (y :: chunks))
          = x :: y :: chunks).
  rewrite (IH Hrest). simpl. now rewrite Hxy.
Qed.

(** ** Single-event theorems *)

(** C1. After one result event [interimTranscript] is exactly the
    concatenation of the texts of the non-final chunks of the batch, taken
    in ascending index order from [resultIndex]; the value it had before
    the call plays no part, and a batch without non-final chunk leaves it
    empty. *)
Theorem interim_replaced_by_batch (event : SpeechRecognitionEvent)
    (c : Component) :
  interimTranscript (handleRecognitionResult event c)
  = join (texts (filter is_interim (batch event)))
  /\ map fst (batch event)
     = seq (resultIndex event)
         (List.length (results event) - resultIndex event)
  /\ (forall c', interimTranscript (handleRecognitionResult event c')
                 = interimTranscript (handleRecognitionResult event c))
  /\ (filter is_interim (batch event) = [] ->
      interimTranscript (handleRecognitionResult event c) = "").
Proof.
  repeat split.
  - apply interimTranscript_handle.
  - apply batch_indices.
  - intros c'. now rewrite !interimTranscript_handle.
  - intros H. now rewrite interimTranscript_handle, H.
Qed.

Lemma interim_replaced_by_batch_witness :
  filter is_interim (batch all_final) = []
  /\ interimTranscript recording = "こん"
  /\ interimTranscript (handleRecognitionResult all_final recording) = "".
Proof.
  split; [reflexivity|]. split; [reflexivity|].
  apply (proj2 (proj2 (proj2
           (interim_replaced_by_batch all_final recording)))).
  reflexivity.
Defined.

(** C9. A result event changes [finalTranscript] and [interimTranscript]
    only: [errorMessage], [isRecording] and [isButtonDisabled] keep their
    values, and so do the recognition object, the console and the calls
    made on the recognition object. *)
Theorem result_event_frame (event : SpeechRecognitionEvent)
    (c : Component) :
  let c' := handleRecognitionResult event c in
  errorMessage c' = errorMessage c
  /\ isRecording c' = isRecording c
  /\ isButtonDisabled c' = isButtonDisabled c
  /\ recognition c' = recognition c
  /\ console c' = console c
  /\ calls c' = calls c.
Proof. repeat split. Qed.

(** C3. For result events whose final chunks carry strictly increasing
    indices, handled from a state with an empty [finalTranscript],
    [finalTranscript] is the concatenation of the texts of all final
    chunks in index order; and in any state one more result event only
    extends [finalTranscript], so it never gets shorter. *)
Theorem final_is_ordered_concatenation
    (events : list SpeechRecognitionEvent) (c : Component) :
  (finalTranscript c = "" ->
   increasing (map fst (final_chunks events)) = true ->
   finalTranscript (process events c)
   = join (texts (in_index_order (final_chunks events))))
  /\ forall event,
       extends (finalTranscript (handleRecognitionResult event c))
               (finalTranscript c)
       /\ String.length (finalTranscript c)
          <= String.length (finalTranscript (handleRecognitionResult event c))
       /\ process (events ++ [event]) c
          = handleRecognitionResult event (process events c).
Proof.
  split.
  - intros Hreset Hincr.
    rewrite finalTranscript_process, Hreset.
    now rewrite (in_index_order_increasing _ Hincr).
  - intros event.
    assert (Hext : extends (finalTranscript (handleRecognitionResult event c))
                           (finalTranscript c)).
    { rewrite finalTranscript_handle. now eexists. }
    repeat split;
      [exact Hext | now apply extends_length | apply process_snoc].
Qed.

Lemma final_is_ordered_concatenation_witness :
  finalTranscript (startRecognition recording) = ""
  /\ increasing
       (map fst
          (final_chunks [kon_interim; konnichiwa_final; second_utterance]))
     = true
  /\ finalTranscript
       (process [kon_interim; konnichiwa_final; second_utterance]
          (startRecognition recording))
     = "こんにちは世界".
Proof.
  split; [reflexivity|]. split; [reflexivity|].
  apply (proj1 (final_is_ordered_concatenation
                  [kon_interim; konnichiwa_final; second_utterance]
                  (startRecognition recording))); reflexivity.
Defined.

(** The scenario of the specification: an interim chunk, then the same
    index delivered final. *)
Example scenario_interim_then_final :
  let c1 := handleRecognitionResult kon_interim (startRecognition mounted) in
  let c2 := handleRecognitionResult konnichiwa_final c1 in
  finalTranscript c1 = "" /\ interimTranscript c1 = "こん"
  /\ finalTranscript c2 = "こんにちは" /\ interimTranscript c2 = "".
Proof. repeat split. Qed.

(** ** The script against the skipping aggregator *)

Section Skipping.

Import SpecAggregator.

Lemma seen_below (index : nat) (a : Aggregator) :
  (forall j, In j (finalized a) -> j < index) -> seen index a = false.
Proof.
  intros Hlt. unfold seen.
  destruct (existsb (Nat.eqb index) (finalized a)) eqn:E; [|reflexivity].
  apply existsb_exists in E as [j [Hin Heq]].
  apply Nat.eqb_eq in Heq. subst j. apply Hlt in Hin. lia.
Qed.

(** When every index finalized so far is below the first index of the
    chunks, none is skipped: all final texts are appended, and the
    indices finalized afterwards are the old ones and those of the
    final chunks. *)
Lemma onChunk_fold_fresh (l : list SpeechRecognitionResult) :
  forall k a,
    (forall j, In j (finalized a) -> j < k) ->
    let chunks := combine (seq k (List.length l)) l in
    let a' := fold_left onChunk chunks a in
    finalText a' = finalText a ++ join (texts (filter is_final chunks))
    /\ forall j, In j (finalized a') ->
                 In j (map fst (filter is_final chunks))
                 \/ In j (finalized a).
Proof.
  induction l as [|r l IH]; intros k a Hlt; simpl.
  - split; [now rewrite append_nil_r | auto].
  - assert (Hstep : onChunk a (k, r)
                    = if isFinal r
                      then mkAggregator (finalText a ++ text r)
                             (interimText a) (k :: finalized a)
                      else mkAggregator (finalText a)
                             (interimText a ++ text r) (finalized a)).
    { unfold onChunk. cbn [fst snd]. now rewrite (seen_below k a Hlt). }
    rewrite Hstep. change (is_final (k, r)) with (isFinal r).
    destruct (isFinal r).
    + destruct (IH (S k) (mkAggregator (finalText a ++ text r)
                            (interimText a) (k :: finalized a)))
        as [Htext Hidx].
      { simpl. intros j [<-|Hj]; [lia | apply Hlt in Hj; lia]. }
      split.
      * rewrite Htext. simpl. now rewrite append_assoc.
      * intros j Hj. apply Hidx in Hj as [Hj|[<-|Hj]]; simpl; auto.
    + destruct (IH (S k) (mkAggregator (finalText a)
                            (interimText a ++ text r) (finalized a)))
        as [Htext Hidx].
      { simpl. intros j Hj. apply Hlt in Hj. lia. }
      split; [exact Htext | exact Hidx].
Qed.

Lemma onResultBatch_fresh (event : SpeechRecognitionEvent)
    (a : Aggregator) :
  (forall j, In j (finalized a) -> j < resultIndex event) ->
  let a' := onResultBatch a event in
  finalText a' = finalText a ++ join (texts (filter is_final (batch event)))
  /\ forall j, In j (finalized a') ->
               In j (map fst (filter is_final (batch event)))
               \/ In j (finalized a).
Proof.
  intros Hlt. unfold onResultBatch, batch.
  apply (onChunk_fold_fresh _ _ (mkAggregator (finalText a) "" (finalized a))).
  exact Hlt.
Qed.

Lemma fresh_from_agrees (events : list SpeechRecognitionEvent) :
  forall done a c,
    (forall j, In j (finalized a) -> In j done) ->
    finalText a = finalTranscript c ->
    fresh_from done events = true ->
    finalTranscript (process events c)
    = finalText (onResultBatches events a).
Proof.
  induction events as [|event events IH]; intros done a c Hsub Heq Hfresh.
  - simpl. now symmetry.
  - simpl in Hfresh. apply andb_true_iff in Hfresh as [Hbelow Hrest].
    rewrite forallb_forall in Hbelow.
    destruct (onResultBatch_fresh event a) as [Htext Hidx].
    { intros j Hj. apply Nat.ltb_lt. apply Hbelow. now apply Hsub. }
    unfold process, onResultBatches in *. simpl.
    apply (IH (map fst (filter is_final (batch event)) ++ done)%list).
    + intros j Hj. apply in_or_app.
      apply Hidx in Hj as [Hj|Hj]; [now left | right; now apply Hsub].
    + now rewrite Htext, finalTranscript_handle, Heq.
    + exact Hrest.
Qed.

End Skipping.

(** C2, as stated, fails: the same final chunk delivered twice is appended
    twice, where the skipping aggregator keeps one copy. *)
Lemma redelivered_final_is_duplicated :
  finalTranscript (process [konnichiwa_final; konnichiwa_final] initial)
  = "こんにちはこんにちは"
  /\ ~ skips_finalized [konnichiwa_final; konnichiwa_final].
Proof.
  split; [reflexivity|].
  unfold skips_finalized. vm_compute. discriminate.
Qed.

(** C2, amended. The handler keeps no record of finalized indices: it
    appends the text of every final chunk of the batch, from
    [resultIndex] on, to [finalTranscript]. When every batch starts above
    every index finalized by the batches before it, [finalTranscript] is
    what the skipping aggregator produces, so nothing is duplicated. *)
Theorem final_appended_without_index_check
    (events : list SpeechRecognitionEvent) :
  (forall event c,
     finalTranscript (handleRecognitionResult event c)
     = finalTranscript c ++ join (texts (filter is_final (batch event))))
  /\ (fresh events = true -> skips_finalized events).
Proof.
  split.
  - intros event c. apply finalTranscript_handle.
  - intros Hfresh. unfold skips_finalized.
    apply (fresh_from_agrees events [] SpecAggregator.reset initial);
      [intros j [] | reflexivity | exact Hfresh].
Qed.

Lemma final_appended_without_index_check_witness :
  fresh [kon_interim; konnichiwa_final; second_utterance] = true
  /\ skips_finalized [kon_interim; konnichiwa_final; second_utterance].
Proof.
  split; [reflexivity|].
  apply (proj2 (final_appended_without_index_check
                  [kon_interim; konnichiwa_final; second_utterance])).
  reflexivity.
Defined.

(** ** Error events *)

(** C4, as stated, fails: an error event during a session leaves the
    pending interim text in place. *)
Lemma error_keeps_interim :
  isRecording recording = true
  /\ interimTranscript
       (handleRecognitionError (mkErrorEvent "no-speech") recording)
     = "こん"
  /\ interimTranscript
       (handleRecognitionError (mkErrorEvent "no-speech") recording)
     <> "".
Proof. repeat split. discriminate. Qed.

(** C4, amended. An error event, in any state and so during a session,
    ends the session ([isRecording] false, button enabled), sets
    [errorMessage] to the dedicated message for ["no-speech"] and to the
    prefixed error code otherwise, and leaves both [finalTranscript] and
    [interimTranscript] as they were. *)
Theorem error_ends_session (event : SpeechRecognitionErrorEvent)
    (c : Component) :
  let c' := handleRecognitionError event c in
  isRecording c' = false
  /\ isButtonDisabled c' = false
  /\ (error event = "no-speech" -> errorMessage c' = no_speech_message)
  /\ (error event <> "no-speech" ->
      errorMessage c' = other_error_prefix ++ error event)
  /\ lastError_set c'
  /\ finalTranscript c' = finalTranscript c
  /\ interimTranscript c' = interimTranscript c
  /\ console c' = (console c ++ [("Error: " ++ error event)%string])%list
  /\ calls c' = calls c.
Proof.
  unfold handleRecognitionError, lastError_set.
  destruct (String.eqb_spec (error event) "no-speech") as [E|E]; simpl;
    repeat split; try congruence; try discriminate.
Qed.

Lemma error_ends_session_witness :
  errorMessage (handleRecognitionError (mkErrorEvent "no-speech") recording)
  = no_speech_message
  /\ errorMessage
       (handleRecognitionError (mkErrorEvent "not-allowed") recording)
     = "エラーが発生しました: not-allowed".
Proof.
  split.
  - apply (proj1 (proj2 (proj2
             (error_ends_session (mkErrorEvent "no-speech") recording)))).
    reflexivity.
  - apply (proj1 (proj2 (proj2 (proj2
             (error_ends_session (mkErrorEvent "not-allowed") recording))))).
    simpl. discriminate.
Defined.

(** ** Inputs and their handlers *)

(** A delivered input runs its handler, and a delivered click found the
    button enabled. *)
Lemma deliver_inv (i : Input) (c c' : Component) :
  deliver i c = Some c' ->
  c' = match i with
       | Click => handleButtonClick c
       | Started => onstart_callback c
       | ResultBatch event => handleRecognitionResult event c
       | Failed event => handleRecognitionError event c
       | Ended => onend_callback c
       end
  /\ (i = Click -> isButtonDisabled c = false).
Proof.
  destruct i; simpl;
    [ destruct (isButtonDisabled c)
    | destruct (slot_assigned onstart c)
    | destruct (slot_assigned onresult c)
    | destruct (slot_assigned onerror c)
    | destruct (slot_assigned onend c) ];
    intros H; inversion H; split; try reflexivity; discriminate.
Qed.

Lemma deliver_calls (i : Input) (c c' : Component) :
  deliver i c = Some c' ->
  calls c'
  = (calls c
     ++ match i with
        | Click => requested (if isRecording c then ReqStop else ReqStart) c
        | _ => []
        end)%list.
Proof.
  intros H. apply deliver_inv in H as [-> _].
  destruct i; simpl; rewrite ?app_nil_r; try reflexivity.
  - unfold handleButtonClick, startRecognition, stopRecognition,
      recognition_start, recognition_stop, requested.
    destruct (isRecording c); simpl; destruct (recognition c); simpl;
      now rewrite ?app_nil_r.
  - unfold handleRecognitionError.
    destruct (String.eqb (error event) "no-speech"); reflexivity.
Qed.

(** ** The button *)

Lemma startRecognition_unfold (c : Component) :
  startRecognition c
  = recognition_start
      (set_isButtonDisabled true
         (set_errorMessage ""
            (set_finalTranscript "" (set_interimTranscript "" c)))).
Proof. reflexivity. Qed.


Lemma startRecognition_calls (c : Component) :
  calls (startRecognition c) = (calls c ++ requested ReqStart c)%list.
Proof.
  rewrite startRecognition_unfold. unfold recognition_start, requested.
  simpl. destruct (recognition c); simpl; now rewrite ?app_nil_r.
Qed.

(** C6. A click while no session is recording is a start request: it runs
    [startRecognition]. Its [start] call, made when the recognition
    object exists, is the last statement to run: wherever the body calls
    [start], [errorMessage], [finalTranscript] and [interimTranscript]
    are already empty and no call has been made yet. The three are still
    empty after the click, and the calls made are the old ones followed
    by that [start] call. *)
Theorem start_clears_before_activation (c : Component) :
  isRecording c = false ->
  handleButtonClick c = startRecognition c
  /\ startRecognition c = exec_body startRecognition_body c
  /\ (exists before,
        In (CallRecognitionStart, before) (schedule startRecognition_body c))
  /\ (forall before,
        In (CallRecognitionStart, before) (schedule startRecognition_body c) ->
        errorMessage before = ""
        /\ finalTranscript before = ""
        /\ interimTranscript before = ""
        /\ calls before = calls c)
  /\ calls (handleButtonClick c) = (calls c ++ requested ReqStart c)%list
  /\ errorMessage (handleButtonClick c) = ""
  /\ finalTranscript (handleButtonClick c) = ""
  /\ interimTranscript (handleButtonClick c) = "".
Proof.
  intros Hidle.
  assert (Hclick : handleButtonClick c = startRecognition c).
  { unfold handleButtonClick. now rewrite Hidle. }
  rewrite Hclick. split; [reflexivity|]. split; [reflexivity|]. split.
  { eexists. simpl. do 4 right. left. reflexivity. }
  split.
  { intros before Hin. simpl in Hin.
    destruct Hin as [H|[H|[H|[H|[H|[]]]]]]; inversion H; subst before.
    repeat split. }
  split; [apply startRecognition_calls|].
  rewrite startRecognition_unfold. unfold recognition_start. simpl.
  destruct (recognition c); repeat split.
Qed.

Lemma start_clears_before_activation_witness :
  let failed := handleRecognitionError (mkErrorEvent "no-speech") recording in
  errorMessage failed = no_speech_message
  /\ finalTranscript failed = "ab"
  /\ calls (handleButtonClick failed) = [ReqStart]
  /\ errorMessage (handleButtonClick failed) = ""
  /\ finalTranscript (handleButtonClick failed) = ""
  /\ interimTranscript (handleButtonClick failed) = "".
Proof.
  split; [reflexivity|]. split; [reflexivity|].
  apply (proj2 (proj2 (proj2 (proj2
           (start_clears_before_activation
              (handleRecognitionError (mkErrorEvent "no-speech") recording)
              eq_refl))))).
Defined.





(** ** A browser without the recognition API *)

(** Without a recognition object no callback can be delivered. *)
Lemma deliver_without_recognition (i : Input) (c c' : Component) :
  recognition c = None ->
  deliver i c = Some c' ->
  i = Click /\ isButtonDisabled c = false /\ c' = handleButtonClick c.
Proof.
  intros Hnone. destruct i; simpl; unfold slot_assigned; rewrite ?Hnone;
    try discriminate.
  destruct (isButtonDisabled c); [discriminate|].
  intros H. inversion H. auto.
Qed.

Lemma unsupported_page_step (c c' : Component) :
  unsupported_page c -> step c c' -> unsupported_page c'.
Proof.
  intros (Hr & Hrec & Hf & Hi & He & Hc & Hl) [i Hi'].
  destruct (deliver_without_recognition i c c' Hr Hi') as (_ & _ & ->).
  unfold unsupported_page, handleButtonClick, startRecognition,
    recognition_start.
  rewrite Hrec. simpl. rewrite Hr. simpl. repeat split; assumption.
Qed.

Lemma unsupported_page_reachable (c c' : Component) :
  reachable c c' -> unsupported_page c -> unsupported_page c'.
Proof.
  induction 1 as [|c mid c' Hstep _ IH]; intros Hinv; [exact Hinv|].
  apply IH. now apply (unsupported_page_step c).
Qed.

(** C5, as stated, fails: on a browser without the API a start request
    leaves [errorMessage] empty, so no error is surfaced in the page. *)
Lemma unsupported_start_sets_no_error :
  createSpeechRecognition unsupported_window = None
  /\ errorMessage (handleButtonClick mounted_unsupported) = ""
  /\ ~ lastError_set (handleButtonClick mounted_unsupported).
Proof.
  repeat split. intros H. now apply H.
Qed.

(** C5, amended. When [createSpeechRecognition] returns null, [onMount]
    writes one line to the console and assigns no handler. A start
    request can be delivered, and in every state the page reaches from
    then on nothing is recording, [errorMessage] is empty (the condition
    is surfaced on the console only), no call is made on the capability,
    and both transcripts are empty since no result event can arrive. *)
Theorem unsupported_stays_idle (w : Window) :
  createSpeechRecognition w = None ->
  let c0 := onMount w initial in
  console c0 = [unsupported_line]
  /\ step c0 (startRecognition c0)
  /\ (forall c event, reachable c0 c ->
        deliver (ResultBatch event) c = None)
  /\ forall c, reachable c0 c ->
       isRecording c = false
       /\ errorMessage c = ""
       /\ finalTranscript c = ""
       /\ interimTranscript c = ""
       /\ calls c = []
       /\ console c = [unsupported_line].
Proof.
  intros Hnone c0.
  assert (Hinv : unsupported_page c0).
  { subst c0. unfold onMount, unsupported_page. simpl. rewrite Hnone.
    simpl. repeat split; assumption. }
  split; [apply Hinv|]. split.
  { exists Click. subst c0. unfold onMount. simpl. rewrite Hnone. reflexivity. }
  split.
  - intros c event Hreach.
    destruct (unsupported_page_reachable _ _ Hreach Hinv) as (Hr & _).
    simpl. unfold slot_assigned. now rewrite Hr.
  - intros c Hreach.
    destruct (unsupported_page_reachable _ _ Hreach Hinv)
      as (_ & Hrec & Hf & Hi & He & Hc & Hl).
    repeat split; assumption.
Qed.

Lemma unsupported_stays_idle_witness :
  createSpeechRecognition unsupported_window = None
  /\ console mounted_unsupported = [unsupported_line]
  /\ step mounted_unsupported (startRecognition mounted_unsupported).
Proof.
  split; [reflexivity|].
  destruct (unsupported_stays_idle unsupported_window eq_refl)
    as (Hconsole & Hstep & _).
  split; [exact Hconsole | exact Hstep].
Defined.

(** A state in which nothing can be delivered is never left. *)
Lemma stuck_reachable (c c' : Component) :
  (forall i, deliver i c = None) -> reachable c c' -> c' = c.
Proof.
  intros Hstuck Hreach. unfold reachable in Hreach.
  destruct Hreach as [|mid c' [i Hi] _]; [reflexivity|].
  rewrite Hstuck in Hi. discriminate.
Qed.

(** C10. With a null [recognition], [startRecognition] still empties
    [finalTranscript], [interimTranscript] and [errorMessage] and disables
    the button, and makes no call; no click and no callback can be
    delivered afterwards, so the page stays in that state and the button
    stays disabled. *)
Theorem start_without_recognition_locks_button (c : Component) :
  recognition c = None ->
  let c' := startRecognition c in
  finalTranscript c' = ""
  /\ interimTranscript c' = ""
  /\ errorMessage c' = ""
  /\ isButtonDisabled c' = true
  /\ calls c' = calls c
  /\ (forall i, deliver i c' = None)
  /\ forall c'', reachable c' c'' ->
       c'' = c' /\ isButtonDisabled c'' = true.
Proof.
  intros Hnone c'.
  assert (Hc' : c' = set_isButtonDisabled true
                       (set_errorMessage ""
                          (set_finalTranscript ""
                             (set_interimTranscript "" c)))).
  { subst c'. unfold startRecognition, recognition_start. simpl.
    now rewrite Hnone. }
  assert (Hstuck : forall i, deliver i c' = None).
  { intros i. rewrite Hc'. destruct i; simpl; unfold slot_assigned; simpl;
      now rewrite ?Hnone. }
  assert (Hstay : forall c'', reachable c' c'' -> c'' = c').
  { intros c'' Hreach. now apply stuck_reachable. }
  split; [now rewrite Hc'|]. split; [now rewrite Hc'|].
  split; [now rewrite Hc'|]. split; [now rewrite Hc'|].
  split; [now rewrite Hc'|]. split; [exact Hstuck|].
  intros c'' Hreach. rewrite (Hstay c'' Hreach).
  split; [reflexivity | now rewrite Hc'].
Qed.

Lemma start_without_recognition_locks_button_witness :
  recognition mounted_unsupported = None
  /\ isButtonDisabled (startRecognition mounted_unsupported) = true
  /\ run [Click; Click] mounted_unsupported = None.
Proof.
  split; [reflexivity|].
  destruct (start_without_recognition_locks_button
              mounted_unsupported eq_refl)
    as (_ & _ & _ & Hdisabled & _).
  split; [exact Hdisabled | reflexivity].
Defined.

(** ** A whole session on a browser with the API *)

Example session_with_error :
  option_map
    (fun c => (finalTranscript c, interimTranscript c, isRecording c,
               errorMessage c, calls c))
    (run [Click; Started; ResultBatch kon_interim;
          ResultBatch konnichiwa_final; ResultBatch second_utterance;
          Failed (mkErrorEvent "no-speech")] mounted)
  = Some ("こんにちは世界", "です", false, no_speech_message, [ReqStart]).
Proof. reflexivity. Qed.

(** * Further properties of the script *)

(** ** [createSpeechRecognition] and [onMount] *)

(** X1. [createSpeechRecognition] returns null exactly when the window has
    neither constructor; otherwise the object is configured the same way
    whichever constructor was found: continuous, interim results on,
    language [ja-JP], one alternative, no callback assigned yet. *)
Theorem createSpeechRecognition_result (w : Window) :
  (createSpeechRecognition w = None <->
   window_SpeechRecognition w = None
   /\ window_webkitSpeechRecognition w = None)
  /\ forall r, createSpeechRecognition w = Some r ->
       r = mkRecognition true true "ja-JP" 1 false false false false.
Proof.
  unfold createSpeechRecognition, pick_constructor.
  destruct (window_SpeechRecognition w) as [k|];
    [|destruct (window_webkitSpeechRecognition w) as [k|]];
    (split; [split; [try discriminate; auto | intros [H1 H2]; congruence]
            | intros r H; simpl in H; congruence]).
Qed.

Lemma createSpeechRecognition_result_witness :
  (exists r, createSpeechRecognition supported_window = Some r
             /\ lang r = "ja-JP" /\ onresult r = false)
  /\ createSpeechRecognition unsupported_window = None.
Proof.
  split.
  - eexists. split; [reflexivity|].
    pose proof (proj2 (createSpeechRecognition_result supported_window)
                  _ eq_refl) as H.
    split; [exact (f_equal lang H) | exact (f_equal onresult H)].
  - apply (proj1 (createSpeechRecognition_result unsupported_window)).
    split; reflexivity.
Defined.

(** No handler assigns [recognition]. *)
Lemma deliver_recognition (i : Input) (c c' : Component) :
  deliver i c = Some c' -> recognition c' = recognition c.
Proof.
  destruct i; simpl.
  - destruct (isButtonDisabled c); [discriminate|].
    intros H; inversion H; subst c'.
    unfold handleButtonClick, startRecognition, stopRecognition,
      recognition_start, recognition_stop.
    destruct (isRecording c); simpl;
      destruct (recognition c) eqn:E; simpl; now rewrite ?E.
  - destruct (slot_assigned onstart c); [|discriminate].
    intros H; inversion H; reflexivity.
  - destruct (slot_assigned onresult c); [|discriminate].
    intros H; inversion H; reflexivity.
  - destruct (slot_assigned onerror c); [|discriminate].
    intros H; inversion H; subst c'. unfold handleRecognitionError.
    destruct (String.eqb (error event) "no-speech"); reflexivity.
  - destruct (slot_assigned onend c); [|discriminate].
    intros H; inversion H; reflexivity.
Qed.

Lemma reachable_deliver (i : Input) (c c' : Component) :
  deliver i c = Some c' -> reachable c c'.
Proof.
  intros Hi. unfold reachable.
  econstructor 2; [exists i; exact Hi | constructor 1].
Qed.

Lemma reachable_recognition (c c' : Component) :
  reachable c c' -> recognition c' = recognition c.
Proof.
  induction 1 as [|c mid c' [i Hi] _ IH]; [reflexivity|].
  rewrite IH. now apply (deliver_recognition i).
Qed.

Lemma onMount_supported (w : Window) :
  createSpeechRecognition w <> None ->
  recognition (onMount w initial)
  = Some (mkRecognition true true "ja-JP" 1 true true true true).
Proof.
  intros Hsome. unfold onMount. simpl.
  destruct (createSpeechRecognition w) as [r|] eqn:Hr; [|congruence].
  unfold createSpeechRecognition in Hr.
  destruct (pick_constructor w); [|discriminate].
  inversion Hr. reflexivity.
Qed.

(** X2. On a browser with the API the recognition object made by
    [onMount] is never replaced, and its four callback slots stay
    assigned in every state the page reaches. *)
Theorem handlers_stay_assigned (w : Window) (c : Component) :
  createSpeechRecognition w <> None ->
  reachable (onMount w initial) c ->
  recognition c = recognition (onMount w initial)
  /\ handlers_assigned c = true.
Proof.
  intros Hsome Hreach.
  pose proof (reachable_recognition _ _ Hreach) as Hrec.
  split; [exact Hrec|].
  unfold handlers_assigned, slot_assigned.
  now rewrite Hrec, (onMount_supported w Hsome).
Qed.

Lemma handlers_stay_assigned_witness :
  handlers_assigned (handleButtonClick mounted) = true.
Proof.
  apply (handlers_stay_assigned supported_window (handleButtonClick mounted)).
  - discriminate.
  - apply reachable_deliver with (i := Click). reflexivity.
Defined.

(** ** What each input changes *)

Lemma handleButtonClick_flags (c : Component) :
  isRecording (handleButtonClick c) = isRecording c
  /\ isButtonDisabled (handleButtonClick c) = true.
Proof.
  unfold handleButtonClick, startRecognition, stopRecognition,
    recognition_start, recognition_stop.
  destruct (isRecording c) eqn:Hrec; simpl;
    destruct (recognition c); simpl; auto.
Qed.

Lemma handleRecognitionError_flags (event : SpeechRecognitionErrorEvent)
    (c : Component) :
  isRecording (handleRecognitionError event c) = false
  /\ isButtonDisabled (handleRecognitionError event c) = false.
Proof.
  unfold handleRecognitionError.
  destruct (String.eqb (error event) "no-speech"); auto.
Qed.

(** X3. A click never changes [isRecording]; it disables the button, so
    that no second click is delivered before [onstart], [onend] or
    [onerror] enables it again. [isRecording] is set by [onstart] and
    cleared by [onend] and [onerror]; a result event changes neither
    flag. *)
Theorem flags_after_input (i : Input) (c c' : Component) :
  deliver i c = Some c' ->
  isRecording c'
  = match i with
    | Started => true
    | Ended | Failed _ => false
    | Click | ResultBatch _ => isRecording c
    end
  /\ isButtonDisabled c'
     = match i with
       | Click => true
       | ResultBatch _ => isButtonDisabled c
       | Started | Ended | Failed _ => false
       end
  /\ (i = Click -> deliver Click c' = None).
Proof.
  intros H. apply deliver_inv in H as [-> _].
  destruct i; simpl; repeat split; try discriminate;
    try apply handleButtonClick_flags;
    try apply handleRecognitionError_flags.
  intros _. now rewrite (proj2 (handleButtonClick_flags c)).
Qed.

Lemma flags_after_input_witness :
  deliver Click mounted = Some (handleButtonClick mounted)
  /\ isRecording (handleButtonClick mounted) = false
  /\ deliver Click (handleButtonClick mounted) = None.
Proof.
  split; [reflexivity|].
  destruct (flags_after_input Click mounted (handleButtonClick mounted)
              eq_refl) as (Hrec & _ & Hnone).
  split; [exact Hrec | exact (Hnone eq_refl)].
Defined.

(** ** Calls on the recognition object *)

Lemma requested_length (q : Request) (c : Component) :
  List.length (requested q c) <= 1.
Proof. unfold requested. destruct (recognition c); simpl; lia. Qed.

(** X4. The script calls [start] or [stop] only from a click, at most
    once per click: over any run of inputs the calls made are the old
    ones followed by at most as many new ones as there were clicks, and
    a run without click makes no call, whatever callbacks arrive (no
    restart after [onend] or [onerror]). *)
Theorem calls_only_from_clicks (inputs : list Input) :
  forall c c',
    run inputs c = Some c' ->
    (exists added,
       calls c' = (calls c ++ added)%list
       /\ List.length added <= List.length (filter is_click inputs))
    /\ (filter is_click inputs = [] -> calls c' = calls c).
Proof.
  assert (Hadded : forall c c',
            run inputs c = Some c' ->
            exists added,
              calls c' = (calls c ++ added)%list
              /\ List.length added <= List.length (filter is_click inputs)).
  { induction inputs as [|i inputs IH]; intros c c' Hrun; simpl in Hrun.
    - inversion Hrun. exists []. now rewrite app_nil_r.
    - destruct (deliver i c) as [mid|] eqn:Hi; [|discriminate].
      destruct (IH mid c' Hrun) as (added & Hcalls & Hlen).
      rewrite (deliver_calls i c mid Hi), <- app_assoc in Hcalls.
      eexists. split; [exact Hcalls|].
      rewrite length_app. destruct i; simpl; try lia.
      pose proof (requested_length
                    (if isRecording c then ReqStop else ReqStart) c).
      lia. }
  intros c c' Hrun. split; [now apply Hadded|].
  intros Hnone. destruct (Hadded c c' Hrun) as (added & Hcalls & Hlen).
  rewrite Hnone in Hlen. destruct added; [|simpl in Hlen; lia].
  now rewrite app_nil_r in Hcalls.
Qed.

Lemma calls_only_from_clicks_witness :
  exists c',
    run [Started; ResultBatch kon_interim; Failed (mkErrorEvent "network");
         Ended] mounted = Some c'
    /\ calls c' = [].
Proof.
  eexists. split; [reflexivity|].
  apply (proj2 (calls_only_from_clicks
                  [Started; ResultBatch kon_interim;
                   Failed (mkErrorEvent "network"); Ended]
                  mounted _ eq_refl)).
  reflexivity.
Defined.

(** ** What survives the inputs *)

Lemma deliver_final_extends (i : Input) (c c' : Component) :
  deliver i c = Some c' ->
  is_start_click i c = false ->
  extends (finalTranscript c') (finalTranscript c).
Proof.
  intros H Hstart. apply deliver_inv in H as [-> _].
  destruct i; simpl in Hstart.
  - apply negb_false_iff in Hstart. unfold handleButtonClick.
    rewrite Hstart. unfold stopRecognition, recognition_stop. simpl.
    destruct (recognition c); exists ""; simpl; now rewrite append_nil_r.
  - exists "". simpl. now rewrite append_nil_r.
  - rewrite finalTranscript_handle. now eexists.
  - exists "". unfold handleRecognitionError.
    destruct (String.eqb (error event) "no-speech"); simpl;
      now rewrite append_nil_r.
  - exists "". simpl. now rewrite append_nil_r.
Qed.

Lemma extends_trans (a b c : string) :
  extends c b -> extends b a -> extends c a.
Proof.
  intros [s2 ->] [s1 ->]. exists (s1 ++ s2). apply append_assoc.
Qed.

(** X5. Only a start click discards finalized text: every other input
    (a stop click, [onstart], a result event, an error, [onend]) leaves
    [finalTranscript] with its old value as a prefix, and so does any run
    of inputs without a click. *)
Theorem final_survives_all_but_start (i : Input) (inputs : list Input)
    (c c' : Component) :
  (deliver i c = Some c' -> is_start_click i c = false ->
   extends (finalTranscript c') (finalTranscript c))
  /\ (run inputs c = Some c' -> filter is_click inputs = [] ->
      extends (finalTranscript c') (finalTranscript c)).
Proof.
  split; [apply deliver_final_extends|].
  revert c. induction inputs as [|j inputs IH]; intros c Hrun Hnone;
    simpl in Hrun.
  - inversion Hrun. exists "". now rewrite append_nil_r.
  - destruct (deliver j c) as [mid|] eqn:Hj; [|discriminate].
    assert (Hj' : is_click j = false).
    { simpl in Hnone. destruct (is_click j); [discriminate | reflexivity]. }
    simpl in Hnone. rewrite Hj' in Hnone.
    apply (extends_trans _ (finalTranscript mid)).
    + now apply IH.
    + apply (deliver_final_extends j c mid Hj).
      destruct j; try reflexivity; discriminate.
Qed.

Lemma final_survives_all_but_start_witness :
  extends (finalTranscript (handleButtonClick recording)) "ab"
  /\ exists c',
       run [Failed (mkErrorEvent "network"); ResultBatch second_utterance;
            Ended] recording = Some c'
       /\ extends (finalTranscript c') "ab".
Proof.
  split.
  - apply (proj1 (final_survives_all_but_start Click [] recording
                    (handleButtonClick recording)));
      reflexivity.
  - eexists. split; [reflexivity|].
    apply (proj2 (final_survives_all_but_start Click
                    [Failed (mkErrorEvent "network");
                     ResultBatch second_utterance; Ended]
                    recording _));
      reflexivity.
Defined.

(** X13. An error message stays until the next start click or the next
    error: a stop click, [onstart], a result event and [onend] leave
    [errorMessage] unchanged. *)
Theorem error_message_persists (i : Input) (c c' : Component) :
  deliver i c = Some c' ->
  is_start_click i c = false ->
  is_failed i = false ->
  errorMessage c' = errorMessage c.
Proof.
  intros H Hstart Hfailed. apply deliver_inv in H as [-> _].
  destruct i; simpl in *; try reflexivity; try discriminate.
  apply negb_false_iff in Hstart. unfold handleButtonClick.
  rewrite Hstart. unfold stopRecognition, recognition_stop. simpl.
  destruct (recognition c); reflexivity.
Qed.

Lemma error_message_persists_witness :
  errorMessage
    (handleRecognitionResult kon_interim
       (handleRecognitionError (mkErrorEvent "network") recording))
  = "エラーが発生しました: network".
Proof.
  apply (error_message_persists (ResultBatch kon_interim)
           (handleRecognitionError (mkErrorEvent "network") recording)
           _ eq_refl eq_refl eq_refl).
Defined.

(** ** Sessions *)

Lemma run_cons (i : Input) (rest : list Input) (c mid : Component) :
  deliver i c = Some mid -> run (i :: rest) c = run rest mid.
Proof. intros H. simpl. now rewrite H. Qed.

(** X6. Result events that arrive after a stop click and before [onend]
    are aggregated like any other: from a recording state with the button
    enabled, a click, a result event and [onend] leave the final chunks
    of the event appended to [finalTranscript], its non-final chunks in
    [interimTranscript], nothing recording, the button enabled and one
    [stop] call made. *)
Theorem results_after_stop_click_are_kept (event : SpeechRecognitionEvent)
    (c : Component) (r : SpeechRecognition) :
  recognition c = Some r ->
  onresult r = true ->
  onend r = true ->
  isRecording c = true ->
  isButtonDisabled c = false ->
  exists c',
    run [Click; ResultBatch event; Ended] c = Some c'
    /\ finalTranscript c'
       = finalTranscript c ++ join (texts (filter is_final (batch event)))
    /\ interimTranscript c' = join (texts (filter is_interim (batch event)))
    /\ isRecording c' = false
    /\ isButtonDisabled c' = false
    /\ calls c' = (calls c ++ [ReqStop])%list.
Proof.
  intros Hr Hres Hend Hrec Hbtn.
  assert (Hclick : handleButtonClick c
                   = log_call ReqStop (set_isButtonDisabled true c)).
  { unfold handleButtonClick. rewrite Hrec.
    unfold stopRecognition, recognition_stop. simpl. now rewrite Hr. }
  exists (onend_callback
            (handleRecognitionResult event (handleButtonClick c))).
  split.
  - rewrite (run_cons Click _ c (handleButtonClick c))
      by (simpl; now rewrite Hbtn).
    rewrite (run_cons (ResultBatch event) _ (handleButtonClick c)
               (handleRecognitionResult event (handleButtonClick c)))
      by (simpl; unfold slot_assigned; rewrite Hclick; simpl;
          now rewrite Hr, Hres).
    simpl. unfold slot_assigned. rewrite Hclick. simpl.
    now rewrite Hr, Hend.
  - change (finalTranscript
              (onend_callback
                 (handleRecognitionResult event (handleButtonClick c))))
      with (finalTranscript
              (handleRecognitionResult event (handleButtonClick c))).
    change (interimTranscript
              (onend_callback
                 (handleRecognitionResult event (handleButtonClick c))))
      with (interimTranscript
              (handleRecognitionResult event (handleButtonClick c))).
    rewrite finalTranscript_handle, interimTranscript_handle.
    rewrite Hclick. simpl. repeat split.
Qed.

Lemma results_after_stop_click_are_kept_witness :
  exists c',
    run [Click; ResultBatch second_utterance; Ended] recording = Some c'
    /\ finalTranscript c' = "ab世界"
    /\ interimTranscript c' = "です".
Proof.
  destruct (results_after_stop_click_are_kept second_utterance recording
              _ eq_refl eq_refl eq_refl eq_refl eq_refl)
    as (c' & Hrun & Hfinal & Hinterim & _).
  exists c'. split; [exact Hrun|]. split; [exact Hfinal | exact Hinterim].
Defined.

(** X7. A start click confirmed by [onstart], then a stop click confirmed
    by [onend], with no result in between, comes back to an idle page
    with the button enabled, both transcripts and the error message
    empty, and exactly one [start] and one [stop] call added; the console
    and the recognition object are untouched. *)
Theorem start_stop_round_trip (c : Component) (r : SpeechRecognition) :
  recognition c = Some r ->
  onstart r = true ->
  onend r = true ->
  isRecording c = false ->
  isButtonDisabled c = false ->
  run [Click; Started; Click; Ended] c
  = Some (mkComponent (Some r) "" "" false false "" (console c)
            (calls c ++ [ReqStart; ReqStop])).
Proof.
  destruct c as [rec interim final recd dis err con cls]. simpl.
  intros -> Hstart Hend -> ->. simpl.
  unfold slot_assigned. simpl. rewrite Hstart. simpl.
  unfold slot_assigned. simpl. rewrite Hend.
  unfold onend_callback. cbv -[app]. now rewrite <- app_assoc.
Qed.

Lemma start_stop_round_trip_witness :
  run [Click; Started; Click; Ended]
    (handleRecognitionError (mkErrorEvent "no-speech") recording)
  = Some (mkComponent (recognition mounted) "" "" false false ""
            ["Error: no-speech"] [ReqStart; ReqStop]).
Proof.
  apply (start_stop_round_trip
           (handleRecognitionError (mkErrorEvent "no-speech") recording)
           _ eq_refl eq_refl eq_refl eq_refl eq_refl).
Defined.

(** X10. After an error event the next click is always deliverable and
    is a start request, whatever the state before the error: it empties
    the error message and both transcripts and calls [start]. *)
Theorem click_after_error_restarts (event : SpeechRecognitionErrorEvent)
    (c : Component) (r : SpeechRecognition) :
  recognition c = Some r ->
  onerror r = true ->
  exists c',
    run [Failed event; Click] c = Some c'
    /\ errorMessage c' = ""
    /\ finalTranscript c' = ""
    /\ interimTranscript c' = ""
    /\ isRecording c' = false
    /\ isButtonDisabled c' = true
    /\ calls c' = (calls c ++ [ReqStart])%list.
Proof.
  intros Hr Herr.
  exists (startRecognition (handleRecognitionError event c)).
  split.
  - simpl. unfold slot_assigned. rewrite Hr, Herr.
    rewrite (proj2 (handleRecognitionError_flags event c)).
    unfold handleButtonClick.
    now rewrite (proj1 (handleRecognitionError_flags event c)).
  - unfold startRecognition, recognition_start, handleRecognitionError.
    destruct (String.eqb (error event) "no-speech"); simpl; rewrite Hr;
      repeat split.
Qed.

Lemma click_after_error_restarts_witness :
  exists c',
    run [Failed (mkErrorEvent "not-allowed"); Click] recording = Some c'
    /\ errorMessage c' = ""
    /\ finalTranscript c' = "".
Proof.
  destruct (click_after_error_restarts (mkErrorEvent "not-allowed")
              recording _ eq_refl eq_refl)
    as (c' & Hrun & Herr & Hfinal & _).
  exists c'. split; [exact Hrun|]. split; [exact Herr | exact Hfinal].
Defined.

(** ** More on result events *)

Lemma batch_past_end (event : SpeechRecognitionEvent) :
  List.length (results event) <= resultIndex event -> batch event = [].
Proof.
  intros Hle. unfold batch. now rewrite skipn_all2.
Qed.

(** X8. A result event whose [resultIndex] is at or past the end of
    [results] (an empty list in particular) runs the loop zero times: it
    leaves [finalTranscript] unchanged and empties [interimTranscript]. *)
Theorem result_index_past_end (event : SpeechRecognitionEvent)
    (c : Component) :
  List.length (results event) <= resultIndex event ->
  finalTranscript (handleRecognitionResult event c) = finalTranscript c
  /\ interimTranscript (handleRecognitionResult event c) = "".
Proof.
  intros Hle.
  rewrite finalTranscript_handle, interimTranscript_handle.
  rewrite (batch_past_end event Hle). simpl.
  now rewrite append_nil_r.
Qed.

Lemma result_index_past_end_witness :
  interimTranscript recording = "こん"
  /\ finalTranscript (handleRecognitionResult past_the_end recording) = "ab"
  /\ interimTranscript (handleRecognitionResult past_the_end recording) = "".
Proof.
  split; [reflexivity|].
  apply (result_index_past_end past_the_end recording).
  simpl. lia.
Defined.

Lemma all_interim_filters (chunks : list (nat * SpeechRecognitionResult)) :
  forallb is_interim chunks = true ->
  filter is_final chunks = [] /\ filter is_interim chunks = chunks.
Proof.
  induction chunks as [|x chunks IH]; simpl; [auto|].
  intros H. apply andb_true_iff in H as [Hx Hrest].
  destruct (IH Hrest) as [Hf Hi]. rewrite Hx.
  unfold is_interim in Hx. apply negb_true_iff in Hx.
  unfold is_final at 1. rewrite Hx. now rewrite Hf, Hi.
Qed.

Lemma split_lengths (chunks : list (nat * SpeechRecognitionResult)) :
  String.length (join (texts (filter is_final chunks)))
  + String.length (join (texts (filter is_interim chunks)))
  = String.length (join (texts chunks)).
Proof.
  induction chunks as [|x chunks IH]; simpl; [reflexivity|].
  unfold is_interim at 1. unfold is_final at 1.
  destruct (isFinal (snd x)); simpl; rewrite !length_append; lia.
Qed.

Lemma finals_first_join (chunks : list (nat * SpeechRecognitionResult)) :
  finals_first chunks = true ->
  join (texts (filter is_final chunks))
  ++ join (texts (filter is_interim chunks))
  = join (texts chunks).
Proof.
  induction chunks as [|x chunks IH]; simpl; [reflexivity|].
  change (is_interim x) with (negb (is_final x)).
  destruct (is_final x); simpl; intros H.
  - now rewrite append_assoc, (IH H).
  - destruct (all_interim_filters chunks H) as [-> ->]. reflexivity.
Qed.

(** X9. A result event loses and repeats nothing of its batch: the
    lengths of the two transcripts after the event add up to the length
    of the old [finalTranscript] plus the lengths of all chunk texts of
    the batch. When no final chunk follows a non-final one in the batch,
    the page text, [finalTranscript] followed by [interimTranscript], is
    the old [finalTranscript] followed by the chunk texts in index
    order. *)
Theorem batch_text_conserved (event : SpeechRecognitionEvent)
    (c : Component) :
  let c' := handleRecognitionResult event c in
  String.length (finalTranscript c') + String.length (interimTranscript c')
  = String.length (finalTranscript c)
    + String.length (join (texts (batch event)))
  /\ (finals_first (batch event) = true ->
      finalTranscript c' ++ interimTranscript c'
      = finalTranscript c ++ join (texts (batch event))).
Proof.
  cbv zeta. rewrite finalTranscript_handle, interimTranscript_handle. split.
  - rewrite length_append, <- (split_lengths (batch event)). lia.
  - intros H. now rewrite append_assoc, (finals_first_join _ H).
Qed.

Lemma batch_text_conserved_witness :
  finals_first (batch second_utterance) = true
  /\ finalTranscript (handleRecognitionResult second_utterance recording)
     ++ interimTranscript (handleRecognitionResult second_utterance recording)
     = "ab世界です".
Proof.
  split; [reflexivity|].
  apply (proj2 (batch_text_conserved second_utterance recording)).
  reflexivity.
Defined.

(** ** The placeholder and the error block *)

Lemma eqb_empty_false (s : string) : s <> "" -> String.eqb s "" = false.
Proof. intros H. now apply String.eqb_neq. Qed.

(** X11. A start click brings the placeholder back and hides the error
    block. Once [finalTranscript] is not empty the placeholder stays
    hidden through every other input. *)
Theorem placeholder_follows_final (i : Input) (c c' : Component) :
  deliver i c = Some c' ->
  (is_start_click i c = true ->
   placeholder_shown c' = true /\ error_shown c' = false)
  /\ (is_start_click i c = false -> finalTranscript c <> "" ->
      placeholder_shown c' = false).
Proof.
  intros H. split.
  - intros Hstart. apply deliver_inv in H as [-> _].
    destruct i; try discriminate. simpl in Hstart.
    apply negb_true_iff in Hstart.
    unfold handleButtonClick. rewrite Hstart.
    unfold startRecognition, recognition_start, placeholder_shown,
      error_shown. simpl. destruct (recognition c); split; reflexivity.
  - intros Hstart Hfinal.
    destruct (deliver_final_extends i c c' H Hstart) as [suffix Hext].
    unfold placeholder_shown. rewrite eqb_empty_false; [reflexivity|].
    rewrite Hext. destruct (finalTranscript c); [congruence|discriminate].
Qed.

Lemma placeholder_follows_final_witness :
  placeholder_shown (handleButtonClick mounted) = true
  /\ placeholder_shown (handleButtonClick recording) = false.
Proof.
  split.
  - apply (proj1 (placeholder_follows_final Click mounted
                    (handleButtonClick mounted) eq_refl)).
    reflexivity.
  - apply (proj2 (placeholder_follows_final Click recording
                    (handleButtonClick recording) eq_refl)).
    + reflexivity.
    + simpl. discriminate.
Defined.

(** ** Clicks on a browser with the API *)

(** X12. On a browser with the API every click the page can receive, in
    whatever state it has reached, makes exactly one call on the
    recognition object: [stop] when [isRecording] is true, [start]
    otherwise. *)
Theorem reachable_click_makes_one_call (w : Window) (c c' : Component) :
  createSpeechRecognition w <> None ->
  reachable (onMount w initial) c ->
  deliver Click c = Some c' ->
  calls c'
  = (calls c ++ [if isRecording c then ReqStop else ReqStart])%list.
Proof.
  intros Hsome Hreach Hclick.
  rewrite (deliver_calls Click c c' Hclick). unfold requested.
  now rewrite (reachable_recognition _ _ Hreach), (onMount_supported w Hsome).
Qed.

Lemma reachable_click_makes_one_call_witness :
  calls (handleButtonClick (onstart_callback (handleButtonClick mounted)))
  = [ReqStart; ReqStop].
Proof.
  apply (reachable_click_makes_one_call supported_window
           (onstart_callback (handleButtonClick mounted))).
  - discriminate.
  - unfold reachable.
    econstructor 2; [exists Click; reflexivity|].
    econstructor 2; [exists Started; reflexivity|]. constructor 1.
  - reflexivity.
Defined.

(** ** Pending text and whole sessions *)

(** X14. Pending text is replaced by result events and emptied by a start
    click only: a stop click, [onstart], an error and [onend] leave
    [interimTranscript] as it was, so text still pending when a session
    ends stays on the page. *)
Theorem interim_persists (i : Input) (c c' : Component) :
  deliver i c = Some c' ->
  is_start_click i c = false ->
  is_result i = false ->
  interimTranscript c' = interimTranscript c.
Proof.
  intros H Hstart Hresult. apply deliver_inv in H as [-> _].
  destruct i; simpl in Hstart, Hresult; try reflexivity; try discriminate.
  - apply negb_false_iff in Hstart. unfold handleButtonClick.
    rewrite Hstart. unfold stopRecognition, recognition_stop. simpl.
    destruct (recognition c); reflexivity.
  - unfold handleRecognitionError.
    destruct (String.eqb (error event) "no-speech"); reflexivity.
Qed.

Lemma interim_persists_witness :
  interimTranscript (onend_callback (handleButtonClick recording)) = "こん".
Proof.
  transitivity (interimTranscript (handleButtonClick recording)).
  - apply (interim_persists Ended (handleButtonClick recording)
             _ eq_refl eq_refl eq_refl).
  - apply (interim_persists Click recording _ eq_refl eq_refl eq_refl).
Defined.

Lemma run_app (l1 l2 : list Input) :
  forall c mid,
    run l1 c = Some mid -> run (l1 ++ l2)%list c = run l2 mid.
Proof.
  induction l1 as [|i l1 IH]; intros c mid H; simpl in *.
  - now inversion H.
  - destruct (deliver i c) as [c1|]; [now apply IH | discriminate].
Qed.

(** Result events change the two transcripts only. *)
Lemma process_frame (events : list SpeechRecognitionEvent) :
  forall c,
    recognition (process events c) = recognition c
    /\ isRecording (process events c) = isRecording c
    /\ isButtonDisabled (process events c) = isButtonDisabled c
    /\ errorMessage (process events c) = errorMessage c
    /\ console (process events c) = console c
    /\ calls (process events c) = calls c.
Proof.
  induction events as [|event events IH]; intros c; [repeat split|].
  change (process (event :: events) c)
    with (process events (handleRecognitionResult event c)).
  destruct (IH (handleRecognitionResult event c))
    as (H1 & H2 & H3 & H4 & H5 & H6).
  rewrite H1, H2, H3, H4, H5, H6. repeat split.
Qed.

Lemma run_results (events : list SpeechRecognitionEvent) :
  forall c,
    slot_assigned onresult c = true ->
    run (map ResultBatch events) c = Some (process events c).
Proof.
  induction events as [|event events IH]; intros c Hslot; [reflexivity|].
  simpl. rewrite Hslot. apply IH. exact Hslot.
Qed.

(** X15. A whole session on an idle page with its handlers assigned: a
    click, [onstart], any sequence of result events and [onend] can all
    be delivered, and leave in [finalTranscript] exactly the final chunks
    of those events in delivery order, nothing of an earlier session;
    the page is idle again with the button enabled, no error message and
    one [start] call made. *)
Theorem session_transcript (events : list SpeechRecognitionEvent)
    (c : Component) (r : SpeechRecognition) :
  recognition c = Some r ->
  onstart r = true ->
  onresult r = true ->
  onend r = true ->
  isRecording c = false ->
  isButtonDisabled c = false ->
  exists c',
    run (Click :: Started :: map ResultBatch events ++ [Ended])%list c
    = Some c'
    /\ finalTranscript c' = join (texts (final_chunks events))
    /\ isRecording c' = false
    /\ isButtonDisabled c' = false
    /\ errorMessage c' = ""
    /\ calls c' = (calls c ++ [ReqStart])%list.
Proof.
  intros Hr Hstart Hres Hend Hrec Hbtn.
  set (c1 := handleButtonClick c).
  set (c2 := onstart_callback c1).
  assert (Hc1 : c1 = log_call ReqStart
                       (set_isButtonDisabled true
                          (set_errorMessage ""
                             (set_finalTranscript ""
                                (set_interimTranscript "" c))))).
  { subst c1. unfold handleButtonClick. rewrite Hrec.
    unfold startRecognition, recognition_start. simpl. now rewrite Hr. }
  assert (Hrec1 : recognition c1 = Some r).
  { rewrite Hc1. exact Hr. }
  assert (Hrec2 : recognition c2 = Some r).
  { exact Hrec1. }
  destruct (process_frame events c2) as (P1 & P2 & P3 & P4 & P5 & P6).
  exists (onend_callback (process events c2)). split.
  - rewrite (run_cons Click _ c c1) by (simpl; now rewrite Hbtn).
    rewrite (run_cons Started _ c1 c2)
      by (simpl; unfold slot_assigned; now rewrite Hrec1, Hstart).
    rewrite (run_app _ [Ended] c2 (process events c2))
      by (apply run_results; unfold slot_assigned; now rewrite Hrec2).
    simpl. unfold slot_assigned. now rewrite P1, Hrec2, Hend.
  - change (finalTranscript (onend_callback (process events c2)))
      with (finalTranscript (process events c2)).
    rewrite finalTranscript_process.
    unfold onend_callback. simpl. rewrite P4, P6.
    subst c2. rewrite Hc1. simpl. repeat split.
Qed.

Lemma session_transcript_witness :
  exists c',
    run [Click; Started; ResultBatch kon_interim;
         ResultBatch konnichiwa_final; ResultBatch second_utterance; Ended]
      (handleRecognitionError (mkErrorEvent "no-speech") recording)
    = Some c'
    /\ finalTranscript c' = "こんにちは世界".
Proof.
  destruct (session_transcript
              [kon_interim; konnichiwa_final; second_utterance]
              (handleRecognitionError (mkErrorEvent "no-speech") recording)
              _ eq_refl eq_refl eq_refl eq_refl eq_refl eq_refl)
    as (c' & Hrun & Hfinal & _).
  exists c'. split; [exact Hrun | exact Hfinal].
Defined.
